(** * StatusLed: a non-blocking LED blinker

    Shallow embedding of [StatusLed.h] / [StatusLed.cpp] and the properties
    of its timing and state logic.

    The class has three private fields ([_pin], [_state], [_lastToggle]) and
    talks to the board through three calls of the Arduino core: [pinMode],
    [digitalWrite] and [millis].  The fields are a record, the board is an
    explicit state (a millisecond clock and the trace of what was done to the
    pins), and the methods are computations in a small state monad over the
    board that return the updated object. *)

From Stdlib Require Import ZArith Bool List Lia.
Import ListNotations.
Local Open Scope Z_scope.

(** ** The board, as seen through [Arduino.h] *)

Module Arduino.

(** The two values accepted by [digitalWrite]. *)
Inductive Level : Type := LOW | HIGH.

(** The modes accepted by [pinMode]. *)
Inductive PinMode : Type := INPUT | OUTPUT | INPUT_PULLUP.

(** What the program did to a pin. *)
Inductive Event : Type :=
| PinSetMode (pin : Z) (mode : PinMode)
| PinWrite (pin : Z) (level : Level).

(** [clock] counts the milliseconds since power-on (it is the physical
    time, so it is not bounded); [trace] lists the pin events, the most
    recent one first. *)
Record Board : Type := { clock : Z; trace : list Event }.

Definition power_on : Board := {| clock := 0; trace := [] |}.

(** Computations that act on the board. *)
Definition HW (A : Type) : Type := Board -> A * Board.

Definition ret {A : Type} (a : A) : HW A := fun b => (a, b).

Definition bind {A B : Type} (m : HW A) (k : A -> HW B) : HW B :=
  fun b => let (a, b') := m b in k a b'.

Definition emit (e : Event) : HW unit :=
  fun b => (tt, {| clock := clock b; trace := e :: trace b |}).

(** Modelled from the spec: [pinMode] of the Arduino core, the collaborator
    "configureAsOutput(pin)"; it is synchronous and always succeeds. *)
Definition pinMode (pin : Z) (mode : PinMode) : HW unit :=
  emit (PinSetMode pin mode).

(** Modelled from the spec: [digitalWrite] of the Arduino core, the
    collaborator "writeLevel(pin, level)"; the write is synchronous and
    always succeeds. *)
Definition digitalWrite (pin : Z) (level : Level) : HW unit :=
  emit (PinWrite pin level).

(** Time passing between two calls of the program: the clock only moves
    forward. *)
Definition elapse (d : N) (b : Board) : Board :=
  {| clock := clock b + Z.of_N d; trace := trace b |}.

(** The level last written to [pin], if it was ever written. *)
Fixpoint last_written (pin : Z) (tr : list Event) : option Level :=
  match tr with
  | [] => None
  | PinWrite p l :: tr' => if p =? pin then Some l else last_written pin tr'
  | PinSetMode _ _ :: tr' => last_written pin tr'
  end.

(** The mode last given to [pin], if any. *)
Fixpoint last_mode (pin : Z) (tr : list Event) : option PinMode :=
  match tr with
  | [] => None
  | PinSetMode p m :: tr' => if p =? pin then Some m else last_mode pin tr'
  | PinWrite _ _ :: tr' => last_mode pin tr'
  end.

Section UnsignedLong.

(** [w] is the width in bits of [unsigned long] (32 on the AVR and ARM
    boards). *)
Variable w : N.

Definition modulus : Z := 2 ^ Z.of_N w.

(** Conversion to [unsigned long]. *)
Definition wrap (x : Z) : Z := x mod modulus.

(** [a - b] on two [unsigned long]. *)
Definition sub (a b : Z) : Z := wrap (a - b).

(** Modelled from the spec: [millis] of the Arduino core, the monotonic
    millisecond clock, which wraps at the width of [unsigned long]. *)
Definition millis : HW Z := fun b => (wrap (clock b), b).

End UnsignedLong.

End Arduino.

Import Arduino.

Declare Scope hw_scope.
Delimit Scope hw_scope with hw.
Notation "x <- c1 ;; c2" := (bind c1 (fun x => c2))
  (at level 61, c1 at next level, right associativity) : hw_scope.
Notation "c1 ;; c2" := (bind c1 (fun _ => c2))
  (at level 61, right associativity) : hw_scope.

(** ** The class *)

Module StatusLed.

(** [uint8_t _pin; bool _state; unsigned long _lastToggle;] *)
Record t : Type := { _pin : Z; _state : bool; _lastToggle : Z }.

(** [StatusLed::StatusLed(uint8_t pin) : _pin(pin), _state(false), _lastToggle(0) {}] *)
Definition new (pin : Z) : t :=
  {| _pin := pin; _state := false; _lastToggle := 0 |}.

(** [void StatusLed::begin()] *)
Definition begin (self : t) : HW t :=
  (pinMode (_pin self) OUTPUT ;;
   digitalWrite (_pin self) LOW ;;
   ret self)%hw.

Section UnsignedLong.

Variable w : N.

(** [void StatusLed::blink(unsigned long intervalMs)] *)
Definition blink (self : t) (intervalMs : Z) : HW t :=
  (now <- millis w ;;
   if sub w now (_lastToggle self) >=? intervalMs then
     let self1 :=
       {| _pin := _pin self;
          _state := negb (_state self);
          _lastToggle := _lastToggle self |} in
     digitalWrite (_pin self1) (if _state self1 then HIGH else LOW) ;;
     ret {| _pin := _pin self1;
            _state := _state self1;
            _lastToggle := now |}
   else ret self)%hw.

End UnsignedLong.

End StatusLed.

Import StatusLed.

(** ** Vocabulary of the properties *)

(** The level that [blink] writes for a value of [_state]:
    [_state ? HIGH : LOW]. *)
Definition level_of (state : bool) : Level := if state then HIGH else LOW.

Definition Level_eqb (l1 l2 : Level) : bool :=
  match l1, l2 with
  | LOW, LOW | HIGH, HIGH => true
  | _, _ => false
  end.

(** The level at which the pin of [s] stands on board [b]. *)
Definition pin_level (s : t) (b : Board) : option Level :=
  last_written (_pin s) (trace b).

(** [_state] and the pin agree, once the pin has been written. *)
Definition in_sync (s : t) (b : Board) : bool :=
  match pin_level s b with
  | None => true
  | Some l => Level_eqb l (level_of (_state s))
  end.

(** What a sketch does with one [StatusLed]: it calls [begin] and [blink],
    and time passes between the calls. *)
Inductive Step : Type :=
| Elapse (d : N)
| Begin
| Blink (intervalMs : Z).

Section Runs.

Variable w : N.

Definition step (st : t * Board) (c : Step) : t * Board :=
  match c with
  | Elapse d => (fst st, elapse d (snd st))
  | Begin => begin (fst st) (snd st)
  | Blink intervalMs => blink w (fst st) intervalMs (snd st)
  end.

Definition run (cs : list Step) (st : t * Board) : t * Board :=
  fold_left step cs st.

(** Every [begin] of the run is called while [_state] is false. *)
Fixpoint begin_while_off (cs : list Step) (st : t * Board) : bool :=
  match cs with
  | [] => true
  | c :: cs' =>
      match c with
      | Begin => negb (_state (fst st))
      | Elapse _ | Blink _ => true
      end && begin_while_off cs' (step st c)
  end.

(** Whether this call of [blink] changes [_state]. *)
Definition toggles (s : t) (intervalMs : Z) (b : Board) : bool :=
  negb (Bool.eqb (_state (fst (blink w s intervalMs b))) (_state s)).

(** The time since the last toggle, as [blink] computes it on board [b]. *)
Definition elapsed (s : t) (b : Board) : Z :=
  sub w (fst (millis w b)) (_lastToggle s).

End Runs.

(** ** Vocabulary of the further properties *)

(** The run makes no call of [begin]. *)
Definition no_begin (cs : list Step) : bool :=
  forallb (fun c => match c with Begin => false | Elapse _ | Blink _ => true end)
    cs.

(** The run makes at least one call of [begin]. *)
Definition has_begin (cs : list Step) : bool :=
  existsb (fun c => match c with Begin => true | Elapse _ | Blink _ => false end)
    cs.

(** The loop of a sketch that polls: [n] times over, [period] ms pass and
    [blink(intervalMs)] is called. *)
Fixpoint poll (period : N) (intervalMs : Z) (n : nat) : list Step :=
  match n with
  | O => []
  | S n' => Elapse period :: Blink intervalMs :: poll period intervalMs n'
  end.

(** The levels written to [pin], the most recent one first. *)
Fixpoint levels_written (pin : Z) (tr : list Event) : list Level :=
  match tr with
  | [] => []
  | PinWrite p l :: tr' =>
      if p =? pin then l :: levels_written pin tr' else levels_written pin tr'
  | PinSetMode _ _ :: tr' => levels_written pin tr'
  end.

(** No two writes in a row carry the same level. *)
Fixpoint alternates (ls : list Level) : bool :=
  match ls with
  | [] => true
  | l1 :: rest =>
      match rest with
      | [] => true
      | l2 :: _ => negb (Level_eqb l1 l2) && alternates rest
      end
  end.

(** The levels written to [pin] between two traces of one run, [before]
    being the older one: what [after] has on top of [before]. *)
Definition written_during (pin : Z) (before after : list Event) : list Level :=
  firstn (length (levels_written pin after)
          - length (levels_written pin before))%nat
    (levels_written pin after).

(** ** Properties *)

Section Properties.

Variable w : N.

Lemma modulus_pos : 0 < modulus w.
Proof. unfold modulus. apply Z.pow_pos_nonneg; lia. Qed.

Lemma wrap_range (x : Z) : 0 <= wrap w x < modulus w.
Proof. unfold wrap. apply Z.mod_pos_bound, modulus_pos. Qed.

Lemma wrap_small (x : Z) : 0 <= x < modulus w -> wrap w x = x.
Proof. unfold wrap. apply Z.mod_small. Qed.

Lemma elapsed_nonneg (s : t) (b : Board) : 0 <= elapsed w s b.
Proof. unfold elapsed, sub. apply wrap_range. Qed.

(** The two branches of [blink]. *)
Lemma blink_unfold (s : t) (intervalMs : Z) (b : Board) :
  blink w s intervalMs b =
  if elapsed w s b >=? intervalMs then
    ({| _pin := _pin s;
        _state := negb (_state s);
        _lastToggle := fst (millis w b) |},
     {| clock := clock b;
        trace := PinWrite (_pin s) (level_of (negb (_state s))) :: trace b |})
  else (s, b).
Proof.
  unfold blink, elapsed, bind, millis, digitalWrite, emit, ret, level_of.
  cbn [fst snd _pin _state _lastToggle].
  destruct (sub w (wrap w (clock b)) (_lastToggle s) >=? intervalMs);
    reflexivity.
Qed.

Lemma blink_due (s : t) (intervalMs : Z) (b : Board) :
  intervalMs <= elapsed w s b ->
  blink w s intervalMs b =
  ({| _pin := _pin s;
      _state := negb (_state s);
      _lastToggle := fst (millis w b) |},
   {| clock := clock b;
      trace := PinWrite (_pin s) (level_of (negb (_state s))) :: trace b |}).
Proof.
  intros H. rewrite blink_unfold.
  replace (elapsed w s b >=? intervalMs) with true; [reflexivity|].
  symmetry. rewrite Z.geb_leb. apply Z.leb_le. exact H.
Qed.

Lemma blink_early (s : t) (intervalMs : Z) (b : Board) :
  elapsed w s b < intervalMs ->
  blink w s intervalMs b = (s, b).
Proof.
  intros H. rewrite blink_unfold.
  replace (elapsed w s b >=? intervalMs) with false; [reflexivity|].
  symmetry. rewrite Z.geb_leb. apply Z.leb_gt. exact H.
Qed.

Lemma begin_unfold (s : t) (b : Board) :
  begin s b =
  (s, {| clock := clock b;
         trace := PinWrite (_pin s) LOW :: PinSetMode (_pin s) OUTPUT :: trace b |}).
Proof. reflexivity. Qed.

Lemma level_of_high (state : bool) : level_of state = HIGH <-> state = true.
Proof. destruct state; cbn; split; congruence. Qed.

Lemma level_of_low (state : bool) : level_of state = LOW <-> state = false.
Proof. destruct state; cbn; split; congruence. Qed.

Lemma last_written_here (pin : Z) (l : Level) (tr : list Event) :
  last_written pin (PinWrite pin l :: tr) = Some l.
Proof. cbn. rewrite Z.eqb_refl. reflexivity. Qed.

(** C1. When the elapsed time [now - _lastToggle], computed on
    [unsigned long], has reached [intervalMs], [blink] negates [_state]
    once, performs exactly one write, of the level of the new [_state] (HIGH
    iff it is true, LOW iff it is false) to [_pin], and stores [now] in
    [_lastToggle]. *)
Theorem blink_toggles_on_threshold (s : t) (b : Board) (intervalMs : Z) :
  let now := fst (millis w b) in
  sub w now (_lastToggle s) >= intervalMs ->
  let s' := fst (blink w s intervalMs b) in
  let b' := snd (blink w s intervalMs b) in
  _state s' = negb (_state s) /\
  trace b' = PinWrite (_pin s) (level_of (_state s')) :: trace b /\
  pin_level s' b' = Some (level_of (_state s')) /\
  (level_of (_state s') = HIGH <-> _state s' = true) /\
  (level_of (_state s') = LOW <-> _state s' = false) /\
  _lastToggle s' = now.
Proof.
  intros now H s' b'. subst s' b'.
  rewrite blink_due by (unfold elapsed; fold now; lia).
  cbn [fst snd _state _lastToggle _pin trace]. unfold pin_level.
  cbn [_pin trace]. rewrite last_written_here.
  repeat split; try apply level_of_high; try apply level_of_low.
Qed.

(** C2. When the elapsed time since the last toggle is strictly less than
    [intervalMs], [blink] leaves [_state] and [_lastToggle] as they were. *)
Theorem blink_noop_before_interval (s : t) (b : Board) (intervalMs : Z) :
  elapsed w s b < intervalMs ->
  _state (fst (blink w s intervalMs b)) = _state s /\
  _lastToggle (fst (blink w s intervalMs b)) = _lastToggle s.
Proof.
  intros H. rewrite blink_early by exact H. split; reflexivity.
Qed.

Lemma toggles_iff_due (s : t) (intervalMs : Z) (b : Board) :
  toggles w s intervalMs b = (elapsed w s b >=? intervalMs).
Proof.
  unfold toggles. rewrite blink_unfold.
  destruct (elapsed w s b >=? intervalMs); cbn [fst _state];
    destruct (_state s); reflexivity.
Qed.

(** C3. [_lastToggle] was taken before the clock wrapped and [now] after, so
    that [now < _lastToggle]; the time that really passed is what was left
    up to the wrap plus what came after it.  The subtraction on
    [unsigned long] gives exactly that duration, and [blink] decides as it
    does for a timer that sees the same duration with no wrap in between. *)
Theorem elapsed_across_wraparound
    (s : t) (b : Board) (s0 : t) (b0 : Board) (intervalMs : Z) :
  let last := _lastToggle s in
  let now := fst (millis w b) in
  now < last < modulus w ->
  let duration := (modulus w - last) + now in
  let last0 := _lastToggle s0 in
  let now0 := fst (millis w b0) in
  0 <= last0 <= now0 ->
  now0 - last0 = duration ->
  sub w now last = duration /\
  sub w now0 last0 = duration /\
  toggles w s intervalMs b = toggles w s0 intervalMs b0 /\
  toggles w s intervalMs b = (duration >=? intervalMs).
Proof.
  intros last now Hwrap duration last0 now0 Hplain Hsame.
  assert (Hnow : 0 <= now < modulus w) by apply wrap_range.
  assert (Hnow0 : 0 <= now0 < modulus w) by apply wrap_range.
  assert (E : sub w now last = duration).
  { unfold sub, wrap. symmetry.
    apply Z.mod_unique with (q := -1); subst duration; lia. }
  assert (E0 : sub w now0 last0 = duration).
  { unfold sub. rewrite Hsame. apply wrap_small. subst duration. lia. }
  rewrite !toggles_iff_due. unfold elapsed.
  fold now last now0 last0. rewrite E, E0. repeat split.
Qed.

(** ** [begin] *)

(** C4, as the code has it. In every state, [begin] configures the pin as an
    output and drives it low, and leaves [_state] as it was: after the call
    [_state] is false, and agrees with the pin, exactly when it was false
    before the call, as it is on a newly constructed object. *)
Theorem begin_drives_low (s : t) (b : Board) :
  let s' := fst (begin s b) in
  let b' := snd (begin s b) in
  pin_level s' b' = Some LOW /\
  last_mode (_pin s') (trace b') = Some OUTPUT /\
  _state s' = _state s /\
  (_state s' = false <-> _state s = false) /\
  in_sync s' b' = negb (_state s) /\
  (forall pin : Z, _state (fst (begin (new pin) b)) = false).
Proof.
  intros s' b'. subst s' b'. rewrite begin_unfold.
  unfold in_sync, pin_level. cbn [fst snd trace].
  rewrite last_written_here.
  split; [reflexivity|].
  split; [cbn [last_mode]; rewrite Z.eqb_refl; reflexivity|].
  split; [reflexivity|]. split; [tauto|].
  split; [destruct (_state s); reflexivity|].
  intros pin. reflexivity.
Qed.

(** ** The invariant between [_state] and the pin *)

Lemma in_sync_elapse (s : t) (d : N) (b : Board) :
  in_sync s (elapse d b) = in_sync s b.
Proof. reflexivity. Qed.

Lemma in_sync_blink (s : t) (intervalMs : Z) (b : Board) :
  in_sync s b = true ->
  in_sync (fst (blink w s intervalMs b)) (snd (blink w s intervalMs b)) = true.
Proof.
  intros H. rewrite blink_unfold.
  destruct (elapsed w s b >=? intervalMs); cbn [fst snd]; [|exact H].
  unfold in_sync, pin_level. cbn [_pin _state trace].
  rewrite last_written_here. destruct (_state s); reflexivity.
Qed.

Lemma in_sync_begin (s : t) (b : Board) :
  _state s = false ->
  in_sync (fst (begin s b)) (snd (begin s b)) = true.
Proof.
  intros H. rewrite begin_unfold. unfold in_sync, pin_level.
  cbn [fst snd trace]. rewrite last_written_here, H. reflexivity.
Qed.

Lemma step_in_sync (c : Step) (st : t * Board) :
  in_sync (fst st) (snd st) = true ->
  begin_while_off w [c] st = true ->
  in_sync (fst (step w st c)) (snd (step w st c)) = true.
Proof.
  intros Hsync Hoff. destruct c as [d| |intervalMs]; cbn [step].
  - cbn [fst snd]. rewrite in_sync_elapse. exact Hsync.
  - apply in_sync_begin. cbn in Hoff.
    destruct (_state (fst st)); [discriminate|reflexivity].
  - apply in_sync_blink. exact Hsync.
Qed.

Lemma run_in_sync (cs : list Step) :
  forall st : t * Board,
    in_sync (fst st) (snd st) = true ->
    begin_while_off w cs st = true ->
    in_sync (fst (run w cs st)) (snd (run w cs st)) = true.
Proof.
  induction cs as [|c cs IH]; intros st Hsync Hoff.
  - exact Hsync.
  - cbn [begin_while_off] in Hoff. apply andb_true_iff in Hoff.
    destruct Hoff as [Hc Hcs].
    change (run w (c :: cs) st) with (run w cs (step w st c)).
    apply IH; [|exact Hcs].
    apply step_in_sync; [exact Hsync|].
    cbn [begin_while_off]. rewrite Hc. reflexivity.
Qed.

(** C5, as the code has it. Start from a newly constructed object on a
    board whose pins were never written, and make any sequence of calls of
    [begin] and [blink], with any time passing in between, in which [begin]
    is only called while [_state] is false.  Then, in every state reached,
    once the pin has been written, the level last written to it is the one
    of [_state]. *)
Theorem state_matches_pin (pin : Z) (cs : list Step) :
  begin_while_off w cs (new pin, power_on) = true ->
  let s := fst (run w cs (new pin, power_on)) in
  let b := snd (run w cs (new pin, power_on)) in
  forall l : Level, pin_level s b = Some l -> l = level_of (_state s).
Proof.
  intros Hoff s b l Hl.
  assert (Hsync : in_sync s b = true).
  { apply run_in_sync; [reflexivity|exact Hoff]. }
  unfold in_sync in Hsync. rewrite Hl in Hsync.
  destruct l, (level_of (_state s)); try reflexivity; discriminate.
Qed.

(** ** Frame properties *)

Lemma step_pin (c : Step) (st : t * Board) :
  _pin (fst (step w st c)) = _pin (fst st).
Proof.
  destruct c as [d| |intervalMs]; cbn [step]; try reflexivity.
  rewrite blink_unfold.
  destruct (elapsed w (fst st) (snd st) >=? intervalMs); reflexivity.
Qed.

(** C7. [_pin] is what the constructor was given, and no call changes it;
    [begin] changes none of the three fields, so that [_state] and
    [_lastToggle] are only ever changed by [blink]. *)
Theorem fields_frame :
  (forall pin : Z, _pin (new pin) = pin) /\
  (forall (s : t) (b : Board),
      _pin (fst (begin s b)) = _pin s /\
      _state (fst (begin s b)) = _state s /\
      _lastToggle (fst (begin s b)) = _lastToggle s) /\
  (forall (s : t) (intervalMs : Z) (b : Board),
      _pin (fst (blink w s intervalMs b)) = _pin s) /\
  (forall (cs : list Step) (st : t * Board),
      _pin (fst (run w cs st)) = _pin (fst st)).
Proof.
  split; [reflexivity|]. split; [intros; repeat split|].
  split.
  - intros s intervalMs b. apply (step_pin (Blink intervalMs) (s, b)).
  - induction cs as [|c cs IH]; intros st; [reflexivity|].
    change (run w (c :: cs) st) with (run w cs (step w st c)).
    rewrite IH. apply step_pin.
Qed.

(** C8. With [intervalMs = 0] every call of [blink] toggles: the elapsed
    time is an [unsigned long], hence never below 0. *)
Theorem blink_zero_interval_always_toggles (s : t) (b : Board) :
  let s' := fst (blink w s 0 b) in
  let b' := snd (blink w s 0 b) in
  elapsed w s b >= 0 /\
  _state s' = negb (_state s) /\
  trace b' = PinWrite (_pin s) (level_of (_state s')) :: trace b /\
  _lastToggle s' = fst (millis w b).
Proof.
  intros s' b'. subst s' b'.
  pose proof (elapsed_nonneg s b) as H.
  rewrite blink_due by exact H.
  cbn [fst snd _state _lastToggle trace]. repeat split. lia.
Qed.

(** C9. When the elapsed time since the last toggle is strictly less than
    [intervalMs], [blink] does nothing to the board: no write, and no other
    pin event either. *)
Theorem blink_no_write_before_interval (s : t) (b : Board) (intervalMs : Z) :
  elapsed w s b < intervalMs ->
  snd (blink w s intervalMs b) = b /\
  trace (snd (blink w s intervalMs b)) = trace b.
Proof.
  intros H. rewrite blink_early by exact H. split; reflexivity.
Qed.

(** C10. Two calls of [blink] in a row that both find the interval elapsed
    bring [_state], and with it the level of the pin, back to what it was
    before the first one. *)
Theorem two_toggles_restore_state
    (s : t) (b : Board) (interval1 : Z) (d : N) (interval2 : Z) :
  let s1 := fst (blink w s interval1 b) in
  let b1 := elapse d (snd (blink w s interval1 b)) in
  elapsed w s b >= interval1 ->
  elapsed w s1 b1 >= interval2 ->
  let s2 := fst (blink w s1 interval2 b1) in
  let b2 := snd (blink w s1 interval2 b1) in
  toggles w s interval1 b = true /\
  toggles w s1 interval2 b1 = true /\
  _state s2 = _state s /\
  pin_level s2 b2 = Some (level_of (_state s)).
Proof.
  intros s1 b1 H1 H2 s2 b2.
  assert (T1 : toggles w s interval1 b = true).
  { rewrite toggles_iff_due, Z.geb_leb. apply Z.leb_le. lia. }
  assert (T2 : toggles w s1 interval2 b1 = true).
  { rewrite toggles_iff_due, Z.geb_leb. apply Z.leb_le. lia. }
  split; [exact T1|]. split; [exact T2|].
  subst s2 b2. rewrite (blink_due s1 interval2 b1) by lia.
  unfold pin_level. cbn [fst snd _state _pin trace].
  rewrite last_written_here.
  subst s1. rewrite (blink_due s interval1 b) by lia.
  cbn [fst _state]. rewrite negb_involutive. split; reflexivity.
Qed.

(** ** The scenario of the specification *)

Lemma elapsed_plain (s : t) (b : Board) :
  0 <= _lastToggle s <= clock b ->
  clock b < modulus w ->
  elapsed w s b = clock b - _lastToggle s.
Proof.
  intros Hlast Hclock. unfold elapsed, sub, millis. cbn [fst].
  rewrite (wrap_small (clock b)) by lia. apply wrap_small. lia.
Qed.

Lemma millis_plain (b : Board) :
  0 <= clock b < modulus w -> fst (millis w b) = clock b.
Proof. intros H. unfold millis. cbn [fst]. apply wrap_small, H. Qed.

(** C6. A [StatusLed] on pin 13, on a board just powered on.  [begin]
    drives the pin LOW; [blink(500)] at clock 0 does not toggle; at clock
    500 it toggles to HIGH and [_lastToggle] becomes 500; at clock 800 it
    does not toggle; at clock 1000 it toggles to LOW and [_lastToggle]
    becomes 1000.  (The clock values of the scenario fit in
    [unsigned long].) *)
Theorem scenario_pin13 :
  1000 < modulus w ->
  let st0 := (new 13, power_on) in
  let st1 := run w [Begin] st0 in
  let st2 := run w [Blink 500] st1 in
  let st3 := run w [Elapse 500; Blink 500] st2 in
  let st4 := run w [Elapse 300; Blink 500] st3 in
  let st5 := run w [Elapse 200; Blink 500] st4 in
  (pin_level (fst st1) (snd st1) = Some LOW /\
   last_mode 13 (trace (snd st1)) = Some OUTPUT /\
   _state (fst st1) = false) /\
  (clock (snd st1) = 0 /\
   toggles w (fst st1) 500 (snd st1) = false /\
   st2 = st1) /\
  (clock (snd st3) = 500 /\
   toggles w (fst st2) 500 (elapse 500 (snd st2)) = true /\
   _state (fst st3) = true /\
   pin_level (fst st3) (snd st3) = Some HIGH /\
   _lastToggle (fst st3) = 500) /\
  (clock (snd st4) = 800 /\
   toggles w (fst st3) 500 (elapse 300 (snd st3)) = false /\
   fst st4 = fst st3 /\
   trace (snd st4) = trace (snd st3)) /\
  (clock (snd st5) = 1000 /\
   toggles w (fst st4) 500 (elapse 200 (snd st4)) = true /\
   _state (fst st5) = false /\
   pin_level (fst st5) (snd st5) = Some LOW /\
   _lastToggle (fst st5) = 1000).
Proof.
  intros Hfit st0 st1.
  assert (E1 : st1 =
               (new 13,
                {| clock := 0;
                   trace := [PinWrite 13 LOW; PinSetMode 13 OUTPUT] |}))
    by reflexivity.
  clearbody st1. subst st1. clear st0.
  intros st2.
  assert (D2 : elapsed w (new 13)
                 {| clock := 0;
                    trace := [PinWrite 13 LOW; PinSetMode 13 OUTPUT] |} = 0).
  { rewrite elapsed_plain; cbn [clock _lastToggle new]; lia. }
  assert (E2 : st2 =
               (new 13,
                {| clock := 0;
                   trace := [PinWrite 13 LOW; PinSetMode 13 OUTPUT] |})).
  { subst st2. cbn [run fold_left step fst snd].
    apply blink_early. rewrite D2. lia. }
  assert (T2 : toggles w (new 13) 500
                 {| clock := 0;
                    trace := [PinWrite 13 LOW; PinSetMode 13 OUTPUT] |}
               = false).
  { rewrite toggles_iff_due, D2. reflexivity. }
  clearbody st2. subst st2.
  intros st3.
  set (b3 := elapse 500
               {| clock := 0;
                  trace := [PinWrite 13 LOW; PinSetMode 13 OUTPUT] |}).
  assert (D3 : elapsed w (new 13) b3 = 500).
  { rewrite elapsed_plain; cbn [clock _lastToggle new b3 elapse]; lia. }
  assert (T3 : toggles w (new 13) 500 b3 = true).
  { rewrite toggles_iff_due, D3. reflexivity. }
  assert (E3 : st3 =
               ({| _pin := 13; _state := true; _lastToggle := 500 |},
                {| clock := 500;
                   trace := [PinWrite 13 HIGH; PinWrite 13 LOW;
                             PinSetMode 13 OUTPUT] |})).
  { subst st3. cbn [run fold_left step fst snd]. fold b3.
    rewrite blink_due by (rewrite D3; lia).
    rewrite millis_plain by (cbn [clock b3 elapse]; lia).
    reflexivity. }
  clearbody st3. subst st3.
  intros st4.
  set (s4 := {| _pin := 13; _state := true; _lastToggle := 500 |}).
  set (b4 := elapse 300
               {| clock := 500;
                  trace := [PinWrite 13 HIGH; PinWrite 13 LOW;
                            PinSetMode 13 OUTPUT] |}).
  assert (D4 : elapsed w s4 b4 = 300).
  { rewrite elapsed_plain; cbn [clock _lastToggle s4 b4 elapse]; lia. }
  assert (T4 : toggles w s4 500 b4 = false).
  { rewrite toggles_iff_due, D4. reflexivity. }
  assert (E4 : st4 = (s4, b4)).
  { subst st4. cbn [run fold_left step fst snd]. fold s4 b4.
    apply blink_early. rewrite D4. lia. }
  clearbody st4. subst st4.
  intros st5.
  set (b5 := elapse 200 b4).
  assert (D5 : elapsed w s4 b5 = 500).
  { rewrite elapsed_plain; cbn [clock _lastToggle s4 b4 b5 elapse]; lia. }
  assert (T5 : toggles w s4 500 b5 = true).
  { rewrite toggles_iff_due, D5. reflexivity. }
  assert (E5 : st5 =
               ({| _pin := 13; _state := false; _lastToggle := 1000 |},
                {| clock := 1000;
                   trace := [PinWrite 13 LOW; PinWrite 13 HIGH;
                             PinWrite 13 LOW; PinSetMode 13 OUTPUT] |})).
  { subst st5. cbn [run fold_left step fst snd]. fold b5.
    rewrite blink_due by (rewrite D5; lia).
    rewrite millis_plain by (cbn [clock b4 b5 elapse]; lia).
    reflexivity. }
  clearbody st5. subst st5.
  subst b5 b4 b3 s4. cbn [fst snd]. rewrite T2, T3, T4, T5.
  repeat split.
Qed.

End Properties.

(** ** Instances on a board with a 32-bit [unsigned long] *)

(** C1 at a new object on pin 13, clock 500, interval 500. *)
Lemma blink_toggles_on_threshold_witness :
  let s := new 13 in
  let b := {| clock := 500; trace := [] |} in
  sub 32 (fst (millis 32 b)) (_lastToggle s) >= 500 /\
  (_state (fst (blink 32 s 500 b)) = negb (_state s) /\
   trace (snd (blink 32 s 500 b)) =
     PinWrite (_pin s) (level_of (_state (fst (blink 32 s 500 b)))) :: trace b /\
   pin_level (fst (blink 32 s 500 b)) (snd (blink 32 s 500 b)) =
     Some (level_of (_state (fst (blink 32 s 500 b)))) /\
   (level_of (_state (fst (blink 32 s 500 b))) = HIGH <->
    _state (fst (blink 32 s 500 b)) = true) /\
   (level_of (_state (fst (blink 32 s 500 b))) = LOW <->
    _state (fst (blink 32 s 500 b)) = false) /\
   _lastToggle (fst (blink 32 s 500 b)) = fst (millis 32 b)).
Proof.
  intros s b. split.
  - vm_compute. discriminate.
  - apply (blink_toggles_on_threshold 32 s b 500). vm_compute. discriminate.
Defined.

(** C2 at the object toggled at 500, clock 800, interval 500. *)
Lemma blink_noop_before_interval_witness :
  let s := {| _pin := 13; _state := true; _lastToggle := 500 |} in
  let b := {| clock := 800; trace := [PinWrite 13 HIGH] |} in
  elapsed 32 s b < 500 /\
  (_state (fst (blink 32 s 500 b)) = _state s /\
   _lastToggle (fst (blink 32 s 500 b)) = _lastToggle s).
Proof.
  intros s b. split.
  - vm_compute. reflexivity.
  - apply (blink_noop_before_interval 32 s b 500). vm_compute. reflexivity.
Defined.

(** C3: last toggle 296 ms before the wrap, now 204 ms after it; the same
    500 ms seen between 1000 and 1500. *)
Lemma elapsed_across_wraparound_witness :
  let s := {| _pin := 13; _state := false; _lastToggle := 4294967000 |} in
  let b := {| clock := 4294967296 + 204; trace := [] |} in
  let s0 := {| _pin := 13; _state := true; _lastToggle := 1000 |} in
  let b0 := {| clock := 1500; trace := [] |} in
  fst (millis 32 b) = 204 /\
  fst (millis 32 b) < _lastToggle s < modulus 32 /\
  0 <= _lastToggle s0 <= fst (millis 32 b0) /\
  fst (millis 32 b0) - _lastToggle s0 =
    (modulus 32 - _lastToggle s) + fst (millis 32 b) /\
  (sub 32 (fst (millis 32 b)) (_lastToggle s) = 500 /\
   sub 32 (fst (millis 32 b0)) (_lastToggle s0) = 500 /\
   toggles 32 s 500 b = toggles 32 s0 500 b0 /\
   toggles 32 s 500 b = (500 >=? 500)).
Proof.
  intros s b s0 b0.
  split; [reflexivity|].
  split; [vm_compute; split; reflexivity|].
  split; [vm_compute; split; discriminate|].
  split; [reflexivity|].
  apply (elapsed_across_wraparound 32 s b s0 b0 500).
  - vm_compute; split; reflexivity.
  - vm_compute; split; discriminate.
  - reflexivity.
Defined.

(** C4 as stated fails on an object whose [_state] is true, here the one
    reached by [begin], then [blink(500)] at clock 500: [begin] drives the
    pin LOW and [_state] stays true. *)
Lemma begin_leaves_state_on :
  let s := {| _pin := 13; _state := true; _lastToggle := 500 |} in
  let b := {| clock := 500;
              trace := [PinWrite 13 HIGH; PinWrite 13 LOW;
                        PinSetMode 13 OUTPUT] |} in
  run 32 [Begin; Elapse 500; Blink 500] (new 13, power_on) = (s, b) /\
  pin_level (fst (begin s b)) (snd (begin s b)) = Some LOW /\
  _state (fst (begin s b)) = true /\
  ~ (pin_level (fst (begin s b)) (snd (begin s b)) = Some LOW /\
     _state (fst (begin s b)) = false).
Proof.
  intros s b. split; [vm_compute; reflexivity|].
  split; [reflexivity|]. split; [reflexivity|].
  intros [_ H]. discriminate H.
Qed.

(** C5 on a run that calls [begin] three times, each time with [_state]
    false. *)
Lemma state_matches_pin_witness :
  let cs := [Begin; Begin; Elapse 500; Blink 500; Elapse 500; Blink 500;
             Begin] in
  begin_while_off 32 cs (new 13, power_on) = true /\
  pin_level (fst (run 32 cs (new 13, power_on)))
    (snd (run 32 cs (new 13, power_on))) = Some LOW /\
  LOW = level_of (_state (fst (run 32 cs (new 13, power_on)))).
Proof.
  intros cs.
  assert (Hoff : begin_while_off 32 cs (new 13, power_on) = true)
    by (vm_compute; reflexivity).
  assert (Hl : pin_level (fst (run 32 cs (new 13, power_on)))
                 (snd (run 32 cs (new 13, power_on))) = Some LOW)
    by (vm_compute; reflexivity).
  split; [exact Hoff|]. split; [exact Hl|].
  exact (state_matches_pin 32 13 cs Hoff LOW Hl).
Defined.

(** C5 as stated fails on the run [begin], [blink(500)] at clock 500,
    [begin]: the last level written is LOW and [_state] is true. *)
Lemma state_differs_from_pin_after_second_begin :
  let st := run 32 [Begin; Elapse 500; Blink 500; Begin] (new 13, power_on) in
  pin_level (fst st) (snd st) = Some LOW /\
  _state (fst st) = true /\
  level_of (_state (fst st)) = HIGH /\
  ~ (forall l : Level,
        pin_level (fst st) (snd st) = Some l -> l = level_of (_state (fst st))).
Proof.
  intros st.
  assert (Hl : pin_level (fst st) (snd st) = Some LOW)
    by (vm_compute; reflexivity).
  assert (Hs : _state (fst st) = true) by (vm_compute; reflexivity).
  split; [exact Hl|]. split; [exact Hs|].
  split; [rewrite Hs; reflexivity|].
  intros H. specialize (H LOW Hl). rewrite Hs in H. discriminate H.
Qed.

(** C6 on a 32-bit [unsigned long]. *)
Lemma scenario_pin13_witness :
  1000 < modulus 32 /\
  let st1 := run 32 [Begin] (new 13, power_on) in
  let st2 := run 32 [Blink 500] st1 in
  let st3 := run 32 [Elapse 500; Blink 500] st2 in
  let st4 := run 32 [Elapse 300; Blink 500] st3 in
  let st5 := run 32 [Elapse 200; Blink 500] st4 in
  (pin_level (fst st1) (snd st1) = Some LOW /\
   last_mode 13 (trace (snd st1)) = Some OUTPUT /\
   _state (fst st1) = false) /\
  (clock (snd st1) = 0 /\
   toggles 32 (fst st1) 500 (snd st1) = false /\
   st2 = st1) /\
  (clock (snd st3) = 500 /\
   toggles 32 (fst st2) 500 (elapse 500 (snd st2)) = true /\
   _state (fst st3) = true /\
   pin_level (fst st3) (snd st3) = Some HIGH /\
   _lastToggle (fst st3) = 500) /\
  (clock (snd st4) = 800 /\
   toggles 32 (fst st3) 500 (elapse 300 (snd st3)) = false /\
   fst st4 = fst st3 /\
   trace (snd st4) = trace (snd st3)) /\
  (clock (snd st5) = 1000 /\
   toggles 32 (fst st4) 500 (elapse 200 (snd st4)) = true /\
   _state (fst st5) = false /\
   pin_level (fst st5) (snd st5) = Some LOW /\
   _lastToggle (fst st5) = 1000).
Proof.
  assert (Hfit : 1000 < modulus 32) by reflexivity.
  split; [exact Hfit|].
  exact (scenario_pin13 32 Hfit).
Defined.

(** C9 at the object toggled at 500, clock 800, interval 500. *)
Lemma blink_no_write_before_interval_witness :
  let s := {| _pin := 13; _state := true; _lastToggle := 500 |} in
  let b := {| clock := 800; trace := [PinWrite 13 HIGH] |} in
  elapsed 32 s b < 500 /\
  (snd (blink 32 s 500 b) = b /\
   trace (snd (blink 32 s 500 b)) = trace b).
Proof.
  intros s b. split.
  - vm_compute. reflexivity.
  - apply (blink_no_write_before_interval 32 s b 500). vm_compute. reflexivity.
Defined.

(** C10 at a new object on pin 13: [blink(500)] at clock 500, then again at
    clock 1000. *)
Lemma two_toggles_restore_state_witness :
  let s := new 13 in
  let b := {| clock := 500; trace := [] |} in
  let s1 := fst (blink 32 s 500 b) in
  let b1 := elapse 500 (snd (blink 32 s 500 b)) in
  elapsed 32 s b >= 500 /\
  elapsed 32 s1 b1 >= 500 /\
  (toggles 32 s 500 b = true /\
   toggles 32 s1 500 b1 = true /\
   _state (fst (blink 32 s1 500 b1)) = _state s /\
   pin_level (fst (blink 32 s1 500 b1)) (snd (blink 32 s1 500 b1)) =
     Some (level_of (_state s))).
Proof.
  intros s b s1 b1.
  assert (H1 : elapsed 32 s b >= 500) by (vm_compute; discriminate).
  assert (H2 : elapsed 32 s1 b1 >= 500) by (vm_compute; discriminate).
  split; [exact H1|]. split; [exact H2|].
  exact (two_toggles_restore_state 32 s b 500 500%N 500 H1 H2).
Defined.

(** * Further properties of the code *)

Section Timing.

Variable w : N.

Lemma wrap_sub_wrap (a c : Z) : wrap w (wrap w a - wrap w c) = wrap w (a - c).
Proof. unfold wrap. symmetry. apply Zminus_mod. Qed.

Lemma wrap_le (x : Z) : 0 <= x -> wrap w x <= x.
Proof. intros H. unfold wrap. apply Z.mod_le; [exact H|apply modulus_pos]. Qed.

Lemma sub_diag (x : Z) : sub w x x = 0.
Proof. unfold sub, wrap. rewrite Z.sub_diag. apply Z.mod_0_l.
  pose proof (modulus_pos w). lia. Qed.

Lemma elapsed_elapse (s : t) (d : N) (b : Board) :
  elapsed w s (elapse d b) = wrap w (elapsed w s b + Z.of_N d).
Proof.
  unfold elapsed, sub, millis, elapse, wrap. cbn [fst clock].
  rewrite Zplus_mod_idemp_l, Zminus_mod_idemp_l.
  replace (clock b mod modulus w - _lastToggle s + Z.of_N d)
    with (clock b mod modulus w + (Z.of_N d - _lastToggle s)) by lia.
  rewrite Zplus_mod_idemp_l. f_equal. lia.
Qed.

Lemma elapsed_after_toggle (s : t) (intervalMs : Z) (b : Board) :
  intervalMs <= elapsed w s b ->
  elapsed w (fst (blink w s intervalMs b)) (snd (blink w s intervalMs b)) = 0.
Proof.
  intros H. rewrite blink_due by exact H. unfold elapsed, millis.
  cbn [fst snd clock _lastToggle]. apply sub_diag.
Qed.

(** X1. Whatever the number of times the clock has wrapped since power-on:
    when [_lastToggle] was read at the physical time [t0] and less than a
    full period of the clock has passed since, the elapsed time that [blink]
    computes is the physical duration, and [blink] toggles exactly when that
    duration has reached [intervalMs]. *)
Theorem elapsed_is_duration_within_period
    (s : t) (b : Board) (t0 intervalMs : Z) :
  _lastToggle s = wrap w t0 ->
  0 <= clock b - t0 < modulus w ->
  elapsed w s b = clock b - t0 /\
  toggles w s intervalMs b = (clock b - t0 >=? intervalMs).
Proof.
  intros Hlast Hdur.
  assert (E : elapsed w s b = clock b - t0).
  { unfold elapsed, sub, millis. cbn [fst]. rewrite Hlast, wrap_sub_wrap.
    apply wrap_small, Hdur. }
  split; [exact E|]. rewrite toggles_iff_due, E. reflexivity.
Qed.

(** X2. [blink] only sees the duration modulo the period of the clock.  When
    the sketch has not called it for [k] full periods plus [r] ms, with [r]
    below [intervalMs], the call does nothing, however long the physical
    duration [k * 2^w + r] is. *)
Theorem blink_misses_full_periods
    (s : t) (b : Board) (t0 k r intervalMs : Z) :
  _lastToggle s = wrap w t0 ->
  clock b - t0 = k * modulus w + r ->
  0 <= r < intervalMs ->
  r < modulus w ->
  elapsed w s b = r /\
  blink w s intervalMs b = (s, b).
Proof.
  intros Hlast Hdur Hr Hr'.
  assert (E : elapsed w s b = r).
  { unfold elapsed, sub, millis. cbn [fst]. rewrite Hlast, wrap_sub_wrap, Hdur.
    unfold wrap. rewrite Z.add_comm, Z_mod_plus_full. apply Z.mod_small. lia. }
  split; [exact E|]. apply blink_early. lia.
Qed.

(** X3. With a positive [intervalMs], a second call of [blink] at the same
    instant does nothing: the first call, when it toggles, restarts the
    interval from that instant. *)
Theorem blink_twice_same_instant (s : t) (b : Board) (intervalMs : Z) :
  0 < intervalMs ->
  let s1 := fst (blink w s intervalMs b) in
  let b1 := snd (blink w s intervalMs b) in
  blink w s1 intervalMs b1 = (s1, b1).
Proof.
  intros Hpos s1 b1. subst s1 b1.
  destruct (Z_lt_le_dec (elapsed w s b) intervalMs) as [Hearly|Hdue].
  - rewrite (blink_early w s intervalMs b Hearly). cbn [fst snd].
    apply blink_early, Hearly.
  - apply blink_early. rewrite elapsed_after_toggle by exact Hdue. exact Hpos.
Qed.

(** X4. Once [blink] has toggled, no call of [blink] toggles again before
    the interval of that call has passed: the pin keeps each level for at
    least [intervalMs] ms. *)
Theorem no_toggle_before_interval_after_toggle
    (s : t) (b : Board) (interval1 : Z) (d : N) (interval2 : Z) :
  elapsed w s b >= interval1 ->
  Z.of_N d < interval2 ->
  let s1 := fst (blink w s interval1 b) in
  let b1 := elapse d (snd (blink w s interval1 b)) in
  toggles w s1 interval2 b1 = false /\
  blink w s1 interval2 b1 = (s1, b1).
Proof.
  intros Hdue Hd s1 b1.
  assert (E : elapsed w s1 b1 < interval2).
  { subst s1 b1. rewrite elapsed_elapse, elapsed_after_toggle by lia.
    cbn [Z.add]. pose proof (wrap_le (Z.of_N d)). lia. }
  split.
  - rewrite toggles_iff_due, Z.geb_leb. apply Z.leb_gt. exact E.
  - apply blink_early. exact E.
Qed.

End Timing.

Section Polling.

Variable w : N.

Lemma run_app (cs1 cs2 : list Step) (st : t * Board) :
  run w (cs1 ++ cs2) st = run w cs2 (run w cs1 st).
Proof. apply fold_left_app. Qed.

Lemma poll_snoc (period : N) (intervalMs : Z) (n : nat) :
  poll period intervalMs (S n) =
  poll period intervalMs n ++ [Elapse period; Blink intervalMs].
Proof.
  induction n as [|n IH]; [reflexivity|].
  change (poll period intervalMs (S (S n)))
    with (Elapse period :: Blink intervalMs :: poll period intervalMs (S n)).
  rewrite IH at 1. reflexivity.
Qed.

Lemma elapse_elapse (d1 d2 : N) (b : Board) :
  elapse d2 (elapse d1 b) = elapse (d1 + d2) b.
Proof. unfold elapse. cbn [clock trace]. f_equal. lia. Qed.

Lemma elapse_0 (b : Board) : elapse 0 b = b.
Proof. destruct b as [c tr]. unfold elapse. cbn [clock trace]. f_equal. lia. Qed.

(** Polls that come before the interval has passed leave everything but the
    clock as it was. *)
Lemma poll_idle (period : N) (intervalMs : Z) (s : t) (n : nat) :
  forall b : Board,
    elapsed w s b + Z.of_nat n * Z.of_N period < intervalMs ->
    elapsed w s b + Z.of_nat n * Z.of_N period < modulus w ->
    run w (poll period intervalMs n) (s, b) =
    (s, elapse (N.of_nat n * period) b).
Proof.
  induction n as [|n IH]; intros b Hearly Hfit.
  - cbn [poll run fold_left]. change (N.of_nat 0 * period)%N with 0%N.
    rewrite elapse_0. reflexivity.
  - pose proof (elapsed_nonneg w s b) as H0.
    assert (E : elapsed w s (elapse period b) =
                elapsed w s b + Z.of_N period).
    { rewrite elapsed_elapse. apply wrap_small. nia. }
    change (run w (poll period intervalMs (S n)) (s, b))
      with (run w (poll period intervalMs n)
              (blink w s intervalMs (elapse period b))).
    rewrite blink_early by (rewrite E; nia).
    rewrite IH by (rewrite E; nia).
    rewrite elapse_elapse. do 2 f_equal. lia.
Qed.

(** X5. A sketch polls [blink(intervalMs)] every [period] ms.  If the
    interval has not passed at the [n]-th poll and has at the next one, the
    first [n] polls change nothing and the poll after them toggles: the
    toggle comes at the first poll at or after the interval, and
    [_lastToggle] is the clock value of that poll. *)
Theorem poll_toggles_at_first_due
    (s : t) (b : Board) (period : N) (intervalMs : Z) (n : nat) :
  elapsed w s b + Z.of_nat n * Z.of_N period < intervalMs ->
  intervalMs <= elapsed w s b + Z.of_nat (S n) * Z.of_N period ->
  elapsed w s b + Z.of_nat (S n) * Z.of_N period < modulus w ->
  run w (poll period intervalMs n) (s, b) =
    (s, elapse (N.of_nat n * period) b) /\
  let st := run w (poll period intervalMs (S n)) (s, b) in
  _state (fst st) = negb (_state s) /\
  trace (snd st) = PinWrite (_pin s) (level_of (negb (_state s))) :: trace b /\
  clock (snd st) = clock b + Z.of_nat (S n) * Z.of_N period /\
  _lastToggle (fst st) = fst (millis w (snd st)).
Proof.
  intros Hearly Hdue Hfit.
  pose proof (elapsed_nonneg w s b) as H0.
  assert (Hidle : run w (poll period intervalMs n) (s, b) =
                  (s, elapse (N.of_nat n * period) b))
    by (apply poll_idle; nia).
  split; [exact Hidle|].
  intros st. subst st. rewrite poll_snoc, run_app, Hidle.
  cbn [run fold_left step fst snd]. rewrite elapse_elapse.
  assert (E : elapsed w s (elapse (N.of_nat n * period + period) b) =
              elapsed w s b + Z.of_nat (S n) * Z.of_N period).
  { rewrite elapsed_elapse.
    replace (Z.of_N (N.of_nat n * period + period))
      with (Z.of_nat (S n) * Z.of_N period) by lia.
    apply wrap_small. lia. }
  rewrite blink_due by (rewrite E; exact Hdue).
  cbn [fst snd _state _lastToggle trace clock elapse millis].
  repeat split. lia.
Qed.

End Polling.

Section Pins.

Variable w : N.

Lemma step_other_pin (c : Step) (st : t * Board) (p : Z) :
  p <> _pin (fst st) ->
  last_written p (trace (snd (step w st c))) = last_written p (trace (snd st)) /\
  last_mode p (trace (snd (step w st c))) = last_mode p (trace (snd st)).
Proof.
  intros Hp. apply not_eq_sym, Z.eqb_neq in Hp.
  destruct c as [d| |intervalMs]; cbn [step].
  - split; reflexivity.
  - rewrite begin_unfold. cbn [snd trace last_written last_mode].
    rewrite Hp. split; reflexivity.
  - rewrite blink_unfold.
    destruct (elapsed w (fst st) (snd st) >=? intervalMs);
      cbn [snd trace last_written last_mode]; [rewrite Hp|]; split; reflexivity.
Qed.

(** X6. A [StatusLed] only ever acts on its own pin: over any run of calls,
    the level and the mode of every other pin stay what they were. *)
Theorem other_pins_untouched (cs : list Step) (p : Z) :
  forall st : t * Board,
    p <> _pin (fst st) ->
    last_written p (trace (snd (run w cs st))) = last_written p (trace (snd st)) /\
    last_mode p (trace (snd (run w cs st))) = last_mode p (trace (snd st)).
Proof.
  induction cs as [|c cs IH]; intros st Hp; [split; reflexivity|].
  change (run w (c :: cs) st) with (run w cs (step w st c)).
  destruct (step_other_pin c st p Hp) as [Hl Hm].
  destruct (IH (step w st c)) as [Hl' Hm'].
  - rewrite step_pin. exact Hp.
  - rewrite Hl', Hm', Hl, Hm. split; reflexivity.
Qed.

Lemma step_mode_without_begin (c : Step) (st : t * Board) (p : Z) :
  no_begin [c] = true ->
  last_mode p (trace (snd (step w st c))) = last_mode p (trace (snd st)).
Proof.
  intros Hc. destruct c as [d| |intervalMs]; cbn [step];
    [reflexivity|discriminate Hc|].
  rewrite blink_unfold.
  destruct (elapsed w (fst st) (snd st) >=? intervalMs); reflexivity.
Qed.

(** X7. [blink] never configures the pin: over a run without a call of
    [begin], the mode of every pin, the one of the [StatusLed] included,
    stays what it was. *)
Theorem pin_mode_unchanged_without_begin (cs : list Step) (p : Z) :
  forall st : t * Board,
    no_begin cs = true ->
    last_mode p (trace (snd (run w cs st))) = last_mode p (trace (snd st)).
Proof.
  induction cs as [|c cs IH]; intros st Hcs; [reflexivity|].
  change (run w (c :: cs) st) with (run w cs (step w st c)).
  cbn [no_begin forallb] in Hcs. apply andb_true_iff in Hcs.
  destruct Hcs as [Hc Hcs].
  rewrite IH by exact Hcs. apply step_mode_without_begin.
  cbn [no_begin forallb]. rewrite Hc. reflexivity.
Qed.

Lemma run_pin (cs : list Step) :
  forall st : t * Board, _pin (fst (run w cs st)) = _pin (fst st).
Proof.
  induction cs as [|c cs IH]; intros st; [reflexivity|].
  change (run w (c :: cs) st) with (run w cs (step w st c)).
  rewrite IH. apply step_pin.
Qed.

Lemma step_keeps_output (c : Step) (st : t * Board) :
  last_mode (_pin (fst st)) (trace (snd st)) = Some OUTPUT ->
  last_mode (_pin (fst (step w st c))) (trace (snd (step w st c))) =
  Some OUTPUT.
Proof.
  intros H. rewrite step_pin. destruct c as [d| |intervalMs]; cbn [step].
  - exact H.
  - rewrite begin_unfold. cbn [snd trace last_mode].
    rewrite Z.eqb_refl. reflexivity.
  - rewrite blink_unfold.
    destruct (elapsed w (fst st) (snd st) >=? intervalMs); exact H.
Qed.

Lemma run_keeps_output (cs : list Step) :
  forall st : t * Board,
    last_mode (_pin (fst st)) (trace (snd st)) = Some OUTPUT ->
    last_mode (_pin (fst (run w cs st))) (trace (snd (run w cs st))) =
    Some OUTPUT.
Proof.
  induction cs as [|c cs IH]; intros st H; [exact H|].
  change (run w (c :: cs) st) with (run w cs (step w st c)).
  apply IH, step_keeps_output, H.
Qed.

(** X8. Once [begin] has been called, the pin of the [StatusLed] is an
    output and stays one, whatever calls follow. *)
Theorem pin_is_output_after_begin (cs : list Step) :
  forall st : t * Board,
    has_begin cs = true ->
    last_mode (_pin (fst st)) (trace (snd (run w cs st))) = Some OUTPUT.
Proof.
  induction cs as [|c cs IH]; intros st Hcs; [discriminate Hcs|].
  change (run w (c :: cs) st) with (run w cs (step w st c)).
  rewrite <- (step_pin w c st).
  destruct c as [d| |intervalMs].
  - apply IH. exact Hcs.
  - rewrite <- (run_pin cs (step w st Begin)).
    apply run_keeps_output. cbn [step]. rewrite begin_unfold.
    cbn [fst snd trace last_mode]. rewrite Z.eqb_refl. reflexivity.
  - apply IH. exact Hcs.
Qed.

End Pins.

Section Levels.

Variable w : N.

(** X9. [begin] called while [_state] is true leaves [_state] and the pin
    apart, and the next toggle brings them together again at the price of a
    lost change of level: it sets [_state] to false and writes LOW to a pin
    that [begin] had already driven LOW. *)
Theorem toggle_after_begin_on_lit_led
    (s : t) (b : Board) (d : N) (intervalMs : Z) :
  _state s = true ->
  let s1 := fst (begin s b) in
  let b1 := elapse d (snd (begin s b)) in
  elapsed w s1 b1 >= intervalMs ->
  let s2 := fst (blink w s1 intervalMs b1) in
  let b2 := snd (blink w s1 intervalMs b1) in
  in_sync s1 b1 = false /\
  pin_level s1 b1 = Some LOW /\
  trace b2 = PinWrite (_pin s) LOW :: trace b1 /\
  _state s2 = false /\
  in_sync s2 b2 = true.
Proof.
  intros Hon s1 b1 Hdue s2 b2.
  subst s2 b2. rewrite blink_due by lia. subst s1 b1.
  rewrite begin_unfold in *.
  unfold in_sync, pin_level.
  cbn [fst snd trace elapse _pin _state]. rewrite !last_written_here, Hon.
  repeat split.
Qed.

(** X10. Whatever [_state] and the pin were before, they agree after every
    call of [blink] that toggles. *)
Theorem toggle_restores_sync (s : t) (b : Board) (intervalMs : Z) :
  elapsed w s b >= intervalMs ->
  in_sync (fst (blink w s intervalMs b)) (snd (blink w s intervalMs b)) = true.
Proof.
  intros Hdue. rewrite blink_due by lia.
  unfold in_sync, pin_level. cbn [fst snd trace _pin _state].
  rewrite last_written_here. destruct (_state s); reflexivity.
Qed.

(** X11. The interval runs from the construction value 0 of [_lastToggle],
    not from the call of [begin]: on a new object, when the clock already
    reads [intervalMs] or more, the first [blink] after [begin] toggles to
    HIGH at once. *)
Theorem first_blink_after_late_begin (pin : Z) (b : Board) (intervalMs : Z) :
  fst (millis w b) >= intervalMs ->
  let st := run w [Begin; Blink intervalMs] (new pin, b) in
  _state (fst st) = true /\
  pin_level (fst st) (snd st) = Some HIGH /\
  _lastToggle (fst st) = fst (millis w b).
Proof.
  intros Hdue st. subst st. cbn [run fold_left step fst snd].
  rewrite begin_unfold. cbn [fst snd].
  assert (E : elapsed w (new pin)
                {| clock := clock b;
                   trace := PinWrite (_pin (new pin)) LOW
                            :: PinSetMode (_pin (new pin)) OUTPUT :: trace b |}
              = fst (millis w b)).
  { unfold elapsed, sub, millis. cbn [fst clock _lastToggle new].
    rewrite Z.sub_0_r. apply wrap_small, wrap_range. }
  rewrite blink_due by (rewrite E; lia).
  unfold pin_level. cbn [fst snd _state _pin _lastToggle trace new].
  rewrite last_written_here. repeat split.
Qed.

Lemma last_written_head (pin : Z) (tr : list Event) :
  last_written pin tr = hd_error (levels_written pin tr).
Proof.
  induction tr as [|[p m|p l] tr IH]; cbn [last_written levels_written];
    [reflexivity|exact IH|].
  destruct (p =? pin); [reflexivity|exact IH].
Qed.

Lemma alternates_cons (l : Level) (ls : list Level) :
  alternates ls = true ->
  (forall h : Level, hd_error ls = Some h -> Level_eqb l h = false) ->
  alternates (l :: ls) = true.
Proof.
  intros Hls Hhd. destruct ls as [|h tl]; [reflexivity|].
  change (negb (Level_eqb l h) && alternates (h :: tl) = true).
  rewrite Hls, (Hhd h eq_refl). reflexivity.
Qed.

Lemma hd_error_app_first (news old : list Level) :
  hd_error (news ++ firstn 1 old) = hd_error (news ++ old).
Proof. destruct news as [|n news]; [destruct old|]; reflexivity. Qed.

Lemma firstn_app_exact (news old : list Level) :
  firstn (length (news ++ old) - length old) (news ++ old) = news.
Proof.
  rewrite length_app, Nat.add_sub.
  induction news as [|n news IH]; cbn [length app firstn].
  - reflexivity.
  - rewrite IH. reflexivity.
Qed.

(** Over a run without [begin] that starts in agreement: the agreement is
    kept, the writes of the run come on top of the earlier ones, and they
    alternate, the level last written before the run included. *)
Lemma run_levels (cs : list Step) (st : t * Board) :
  no_begin cs = true ->
  in_sync (fst st) (snd st) = true ->
  in_sync (fst (run w cs st)) (snd (run w cs st)) = true /\
  exists news : list Level,
    levels_written (_pin (fst st)) (trace (snd (run w cs st))) =
      news ++ levels_written (_pin (fst st)) (trace (snd st)) /\
    alternates
      (news ++ firstn 1 (levels_written (_pin (fst st)) (trace (snd st))))
    = true.
Proof.
  intros Hcs Hsync. induction cs as [|c cs IH] using rev_ind.
  - split; [exact Hsync|]. exists []. split; [reflexivity|].
    destruct (levels_written (_pin (fst st)) (trace (snd st))); reflexivity.
  - unfold no_begin in Hcs. rewrite forallb_app in Hcs.
    apply andb_true_iff in Hcs. destruct Hcs as [Hcs Hc].
    destruct (IH Hcs) as (Hsync' & news & Hnews & Halt). clear IH.
    unfold run in *. rewrite fold_left_app. cbn [fold_left].
    set (st' := fold_left (step w) cs st) in *.
    assert (Hpin : _pin (fst st') = _pin (fst st)) by apply (run_pin w cs st).
    destruct c as [d| |intervalMs]; cbn [step];
      [cbn [fst snd]; split; [exact Hsync'|];
       exists news; split; [exact Hnews|exact Halt]
      |discriminate Hc|].
    split; [apply in_sync_blink, Hsync'|].
    rewrite blink_unfold.
    destruct (elapsed w (fst st') (snd st') >=? intervalMs);
      [|exists news; split; [exact Hnews|exact Halt]].
    cbn [snd trace levels_written]. rewrite Hpin, Z.eqb_refl, Hnews.
    exists (level_of (negb (_state (fst st'))) :: news).
    split; [reflexivity|].
    cbn [app]. apply alternates_cons; [exact Halt|].
    intros h Hh. rewrite hd_error_app_first, <- Hnews in Hh.
    unfold in_sync, pin_level in Hsync'.
    rewrite last_written_head, Hpin, Hh in Hsync'.
    destruct (_state (fst st')), h; cbn in Hsync' |- *;
      try reflexivity; discriminate Hsync'.
Qed.

(** X12. The pin really blinks.  Over a run of calls of [blink], started
    with [_state] and the pin in agreement, the writes of the run come on
    top of the earlier ones and alternate, from the level last written
    before the run on: no two writes in a row carry the same level. *)
Theorem pin_levels_alternate (cs : list Step) (st : t * Board) :
  no_begin cs = true ->
  in_sync (fst st) (snd st) = true ->
  let pin := _pin (fst st) in
  let before := trace (snd st) in
  let after := trace (snd (run w cs st)) in
  levels_written pin after =
    written_during pin before after ++ levels_written pin before /\
  alternates
    (written_during pin before after ++ firstn 1 (levels_written pin before))
  = true.
Proof.
  intros Hcs Hsync pin before after.
  destruct (run_levels cs st Hcs Hsync) as (_ & news & Hnews & Halt).
  fold pin before after in Hnews, Halt.
  assert (E : written_during pin before after = news).
  { unfold written_during. rewrite Hnews. apply firstn_app_exact. }
  rewrite E. split; [exact Hnews|exact Halt].
Qed.

End Levels.

(** ** Instances of the further properties, 32-bit [unsigned long] *)

Ltac by_computation :=
  vm_compute; repeat split; try discriminate; try reflexivity.

(** X1: last toggle 296 ms before the fourth wrap of the clock, now 204 ms
    after it. *)
Lemma elapsed_is_duration_within_period_witness :
  let s := {| _pin := 13; _state := false; _lastToggle := 4294967000 |} in
  let t0 := 3 * 4294967296 + 4294967000 in
  let b := {| clock := 4 * 4294967296 + 204; trace := [] |} in
  _lastToggle s = wrap 32 t0 /\
  0 <= clock b - t0 < modulus 32 /\
  (elapsed 32 s b = clock b - t0 /\
   toggles 32 s 500 b = (clock b - t0 >=? 500)).
Proof.
  intros s t0 b.
  assert (H1 : _lastToggle s = wrap 32 t0) by by_computation.
  assert (H2 : 0 <= clock b - t0 < modulus 32) by by_computation.
  split; [exact H1|]. split; [exact H2|].
  exact (elapsed_is_duration_within_period 32 s b t0 500 H1 H2).
Defined.

(** X2: one full period and 100 ms after the last toggle, interval 500. *)
Lemma blink_misses_full_periods_witness :
  let s := {| _pin := 13; _state := true; _lastToggle := 1000 |} in
  let b := {| clock := 4294967296 + 1100; trace := [PinWrite 13 HIGH] |} in
  _lastToggle s = wrap 32 1000 /\
  clock b - 1000 = 1 * modulus 32 + 100 /\
  0 <= 100 < 500 /\
  100 < modulus 32 /\
  (elapsed 32 s b = 100 /\ blink 32 s 500 b = (s, b)).
Proof.
  intros s b.
  assert (H1 : _lastToggle s = wrap 32 1000) by by_computation.
  assert (H2 : clock b - 1000 = 1 * modulus 32 + 100) by by_computation.
  assert (H3 : 0 <= 100 < 500) by by_computation.
  assert (H4 : 100 < modulus 32) by by_computation.
  split; [exact H1|]. split; [exact H2|]. split; [exact H3|].
  split; [exact H4|].
  exact (blink_misses_full_periods 32 s b 1000 1 100 500 H1 H2 H3 H4).
Defined.

(** X3 at a new object on pin 13, clock 500, interval 500. *)
Lemma blink_twice_same_instant_witness :
  let s := new 13 in
  let b := {| clock := 500; trace := [] |} in
  0 < 500 /\
  blink 32 (fst (blink 32 s 500 b)) 500 (snd (blink 32 s 500 b)) =
  (fst (blink 32 s 500 b), snd (blink 32 s 500 b)).
Proof.
  intros s b.
  assert (H1 : 0 < 500) by by_computation.
  split; [exact H1|].
  exact (blink_twice_same_instant 32 s b 500 H1).
Defined.

(** X4: toggle at clock 500, next call 499 ms later, interval 500. *)
Lemma no_toggle_before_interval_after_toggle_witness :
  let s := new 13 in
  let b := {| clock := 500; trace := [] |} in
  let s1 := fst (blink 32 s 500 b) in
  let b1 := elapse 499 (snd (blink 32 s 500 b)) in
  elapsed 32 s b >= 500 /\
  Z.of_N 499 < 500 /\
  (toggles 32 s1 500 b1 = false /\ blink 32 s1 500 b1 = (s1, b1)).
Proof.
  intros s b s1 b1.
  assert (H1 : elapsed 32 s b >= 500) by by_computation.
  assert (H2 : Z.of_N 499 < 500) by by_computation.
  split; [exact H1|]. split; [exact H2|].
  exact (no_toggle_before_interval_after_toggle 32 s b 500 499%N 500 H1 H2).
Defined.

(** X5: polls every 200 ms from power-on, interval 500: nothing at 200 and
    400, toggle at 600. *)
Lemma poll_toggles_at_first_due_witness :
  let s := new 13 in
  let b := power_on in
  elapsed 32 s b + Z.of_nat 2 * Z.of_N 200 < 500 /\
  500 <= elapsed 32 s b + Z.of_nat 3 * Z.of_N 200 /\
  elapsed 32 s b + Z.of_nat 3 * Z.of_N 200 < modulus 32 /\
  (run 32 (poll 200 500 2) (s, b) = (s, elapse (N.of_nat 2 * 200) b) /\
   let st := run 32 (poll 200 500 3) (s, b) in
   _state (fst st) = negb (_state s) /\
   trace (snd st) = PinWrite (_pin s) (level_of (negb (_state s))) :: trace b /\
   clock (snd st) = clock b + Z.of_nat 3 * Z.of_N 200 /\
   _lastToggle (fst st) = fst (millis 32 (snd st))).
Proof.
  intros s b.
  assert (H1 : elapsed 32 s b + Z.of_nat 2 * Z.of_N 200 < 500)
    by by_computation.
  assert (H2 : 500 <= elapsed 32 s b + Z.of_nat 3 * Z.of_N 200)
    by by_computation.
  assert (H3 : elapsed 32 s b + Z.of_nat 3 * Z.of_N 200 < modulus 32)
    by by_computation.
  split; [exact H1|]. split; [exact H2|]. split; [exact H3|].
  exact (poll_toggles_at_first_due 32 s b 200%N 500 2%nat H1 H2 H3).
Defined.

(** X6: a [StatusLed] on pin 13 next to a pin 12 that was driven HIGH. *)
Lemma other_pins_untouched_witness :
  let cs := [Begin; Elapse 500; Blink 500; Elapse 500; Blink 500] in
  let st := (new 13,
             {| clock := 0;
                trace := [PinWrite 12 HIGH; PinSetMode 12 OUTPUT] |}) in
  12 <> _pin (fst st) /\
  (last_written 12 (trace (snd (run 32 cs st))) =
     last_written 12 (trace (snd st)) /\
   last_mode 12 (trace (snd (run 32 cs st))) =
     last_mode 12 (trace (snd st))).
Proof.
  intros cs st.
  assert (H1 : 12 <> _pin (fst st)) by by_computation.
  split; [exact H1|].
  exact (other_pins_untouched 32 cs 12 st H1).
Defined.

(** X7: [blink] alone on a board just powered on. *)
Lemma pin_mode_unchanged_without_begin_witness :
  let cs := [Elapse 500; Blink 500; Elapse 500; Blink 500] in
  let st := (new 13, power_on) in
  no_begin cs = true /\
  last_mode 13 (trace (snd (run 32 cs st))) = last_mode 13 (trace (snd st)).
Proof.
  intros cs st.
  assert (H1 : no_begin cs = true) by by_computation.
  split; [exact H1|].
  exact (pin_mode_unchanged_without_begin 32 cs 13 st H1).
Defined.

(** X8: [begin] in the middle of a run. *)
Lemma pin_is_output_after_begin_witness :
  let cs := [Elapse 500; Blink 500; Begin; Elapse 500; Blink 500] in
  let st := (new 13, power_on) in
  has_begin cs = true /\
  last_mode (_pin (fst st)) (trace (snd (run 32 cs st))) = Some OUTPUT.
Proof.
  intros cs st.
  assert (H1 : has_begin cs = true) by by_computation.
  split; [exact H1|].
  exact (pin_is_output_after_begin 32 cs st H1).
Defined.

(** X9: the object toggled to HIGH at clock 500, [begin] at once, [blink]
    500 ms later. *)
Lemma toggle_after_begin_on_lit_led_witness :
  let s := {| _pin := 13; _state := true; _lastToggle := 500 |} in
  let b := {| clock := 500; trace := [PinWrite 13 HIGH] |} in
  let s1 := fst (begin s b) in
  let b1 := elapse 500 (snd (begin s b)) in
  _state s = true /\
  elapsed 32 s1 b1 >= 500 /\
  (in_sync s1 b1 = false /\
   pin_level s1 b1 = Some LOW /\
   trace (snd (blink 32 s1 500 b1)) = PinWrite (_pin s) LOW :: trace b1 /\
   _state (fst (blink 32 s1 500 b1)) = false /\
   in_sync (fst (blink 32 s1 500 b1)) (snd (blink 32 s1 500 b1)) = true).
Proof.
  intros s b s1 b1.
  assert (H1 : _state s = true) by by_computation.
  assert (H2 : elapsed 32 s1 b1 >= 500) by by_computation.
  split; [exact H1|]. split; [exact H2|].
  exact (toggle_after_begin_on_lit_led 32 s b 500%N 500 H1 H2).
Defined.

(** X10 at an object whose [_state] is true on a pin last written LOW. *)
Lemma toggle_restores_sync_witness :
  let s := {| _pin := 13; _state := true; _lastToggle := 500 |} in
  let b := {| clock := 1000; trace := [PinWrite 13 LOW; PinWrite 13 HIGH] |} in
  in_sync s b = false /\
  elapsed 32 s b >= 500 /\
  in_sync (fst (blink 32 s 500 b)) (snd (blink 32 s 500 b)) = true.
Proof.
  intros s b.
  assert (H1 : elapsed 32 s b >= 500) by by_computation.
  split; [reflexivity|]. split; [exact H1|].
  exact (toggle_restores_sync 32 s b 500 H1).
Defined.

(** X11: [begin] called 10 s after power-on, interval 500. *)
Lemma first_blink_after_late_begin_witness :
  let b := {| clock := 10000; trace := [] |} in
  let st := run 32 [Begin; Blink 500] (new 13, b) in
  fst (millis 32 b) >= 500 /\
  (_state (fst st) = true /\
   pin_level (fst st) (snd st) = Some HIGH /\
   _lastToggle (fst st) = fst (millis 32 b)).
Proof.
  intros b st.
  assert (H1 : fst (millis 32 b) >= 500) by by_computation.
  split; [exact H1|].
  exact (first_blink_after_late_begin 32 13 b 500 H1).
Defined.

(** X12: [begin] twice, then nine polls 200 ms apart, interval 500: the
    history before the run is LOW, LOW, and the run writes HIGH, LOW, HIGH. *)
Lemma pin_levels_alternate_witness :
  let st := run 32 [Begin; Begin] (new 13, power_on) in
  let cs := poll 200 500 9 in
  let pin := _pin (fst st) in
  let before := trace (snd st) in
  let after := trace (snd (run 32 cs st)) in
  no_begin cs = true /\
  in_sync (fst st) (snd st) = true /\
  levels_written pin before = [LOW; LOW] /\
  written_during pin before after = [HIGH; LOW; HIGH] /\
  (levels_written pin after =
     written_during pin before after ++ levels_written pin before /\
   alternates
     (written_during pin before after ++ firstn 1 (levels_written pin before))
   = true).
Proof.
  intros st cs pin before after.
  assert (H1 : no_begin cs = true) by by_computation.
  assert (H2 : in_sync (fst st) (snd st) = true) by by_computation.
  split; [exact H1|]. split; [exact H2|].
  split; [vm_compute; reflexivity|]. split; [vm_compute; reflexivity|].
  exact (pin_levels_alternate 32 cs st H1 H2).
Defined.
